(** * The diet problem of [linear_prog.py]

    The script reads a spreadsheet of foods, builds a minimum-cost integer
    program with pulp (one integer variable per food, six nutrient rows),
    hands it to pulp's solver and prints the servings and the total cost.

    The embedding follows the script statement by statement.  The numbers
    of the script are Python floats: a finite float is carried as the
    rational it is, and the script's arithmetic on floats rounds to
    binary64.  The solver is an external collaborator of the script: it is
    a parameter of the embedding, and so are pulp's naming of dictionary
    variables and its table of status names. *)

From Stdlib Require Import QArith Qpower Qround Qabs Lqa.
From stdpp Require Import base option strings list gmap.

(** ** Numbers *)

(** Python's [x > 0] on a number. *)
Definition gt0 (q : Q) : bool := negb (Qle_bool q 0).

(** Rounding to the nearest integer, ties to the even one, as Python's
    [round] does. *)
Definition round_half_even (q : Q) : Z :=
  let f := Qfloor q in
  match (q - inject_Z f ?= 1 # 2)%Q with
  | Lt => f
  | Gt => (f + 1)%Z
  | Eq => if Z.even f then f else (f + 1)%Z
  end.

(** Python's [round(q, 2)]. *)
Definition round2 (q : Q) : Q :=
  (inject_Z (round_half_even (q * 100)) / 100)%Q.

Definition is_integer (q : Q) : bool := Qeq_bool q (inject_Z (Qfloor q)).

(** *** Binary64 arithmetic

    An operation of the script on floats is the exact operation followed by
    rounding to the nearest binary64 number, ties to even.  Overflow, the
    infinities, NaN and the sign of zero are left out. *)

(** The [k] with [2 ^ k <= a < 2 ^ (k + 1)], for a positive [a]. *)
Definition ilog2 (a : Q) : Z :=
  let k := (Z.log2 (Qnum a) - Z.log2 (Zpos (Qden a)))%Z in
  if Qle_bool (2 ^ k) a then k else (k - 1)%Z.

(** The binary64 number nearest to [q]: 53 bits of mantissa, the exponent
    of the last bit at least -1074. *)
Definition binary64 (q : Q) : Q :=
  let q := Qred q in
  if Qeq_bool q 0 then 0%Q
  else
    let a := Qabs q in
    let e := Z.max (ilog2 a - 52) (-1074) in
    let m := round_half_even (a / 2 ^ e) in
    let r := Qred (inject_Z m * 2 ^ e) in
    if Qle_bool 0 q then r else Qred (- r).

Arguments binary64 : simpl never.

(** Python's [a + b] and [a * b] on floats. *)
Definition fadd (a b : Q) : Q := binary64 (a + b).
Definition fmul (a b : Q) : Q := binary64 (a * b).

(** ** The spreadsheet *)

(** One row of [diet.xls], with the columns the script reads. *)
Record Row := {
  Foods : string;
  Price_Serving : Q;
  Calories : Q;
  Total_Fat : Q;
  Carbohydrates : Q
}.

Definition DataFrame := list Row.

(** [pd.read_excel(file, nrows=n)]: the first [n] rows of the sheet. *)
Definition read_excel (sheet : list Row) (nrows : nat) : DataFrame :=
  take nrows sheet.

(** [df[col]] (and [df.pop(col).tolist()]): one column, in row order. *)
Definition column {A} (col : Row → A) (df : DataFrame) : list A := col <$> df.

(** [dict(zip(ks, vs))]: a later pair overwrites an earlier one with the
    same key. *)
Definition dict_zip {V} (ks : list string) (vs : list V) : gmap string V :=
  foldl (λ d kv, <[kv.1 := kv.2]> d) ∅ (zip ks vs).

(** ** The part of pulp the script uses *)

Module pulp.

Inductive LpCategory := LpContinuous | LpInteger | LpBinary.
Inductive LpSense := LpMinimize | LpMaximize.
Inductive LpConstraintSense := LpConstraintLE | LpConstraintEQ | LpConstraintGE.

(** A decision variable.  pulp compares variables by object identity;
    [key] stands for that identity: the index the variable was created
    for. *)
Record LpVariable := {
  key : string;
  name : string;
  lowBound : option Q;
  upBound : option Q;
  cat : LpCategory
}.

(** A linear expression: one coefficient per variable, and a constant. *)
Record LpAffineExpression := {
  terms : list (LpVariable * Q);
  constant : Q
}.

Record LpConstraint := {
  lhs : LpAffineExpression;
  sense : LpConstraintSense;
  rhs : Q;
  cname : option string
}.

Record LpProblem := {
  pname : string;
  psense : LpSense;
  objective : option LpAffineExpression;
  constraints : list LpConstraint
}.

(** What the solver leaves behind: [prob.status] and each variable's
    [varValue] ([None] where it assigned nothing). *)
Record Solution := {
  status : Z;
  varValue : gmap string Q
}.

(** [pulp.LpProblem(name, sense)]. *)
Definition new_problem (n : string) (s : LpSense) : LpProblem :=
  {| pname := n; psense := s; objective := None; constraints := [] |}.

(** [c * v]: the variable as an expression (coefficient 1, constant 0)
    times the number.  pulp multiplies the constant and the coefficient
    only when the number is not 0; the product by 0 is the empty
    expression. *)
Definition mul (c : Q) (v : LpVariable) : LpAffineExpression :=
  if Qeq_bool c 0 then {| terms := []; constant := 0 |}
  else {| terms := [(v, c)]; constant := 0 |}.

(** Adding [c] times [v] into an expression: a new variable is appended; a
    variable already present keeps its place, and its coefficient [y]
    becomes [y + c] in floats, or [c] when [y] is 0. *)
Fixpoint addterm (ts : list (LpVariable * Q)) (v : LpVariable) (c : Q)
  : list (LpVariable * Q) :=
  match ts with
  | [] => [(v, c)]
  | (v', c') :: ts' =>
      if String.eqb (key v') (key v)
      then (v', if Qeq_bool c' 0 then c else fadd c' c) :: ts'
      else (v', c') :: addterm ts' v c
  end.

Definition addInPlace (e1 e2 : LpAffineExpression) : LpAffineExpression :=
  {| terms := foldl (λ ts vc, addterm ts vc.1 vc.2) (terms e1) (terms e2);
     constant := fadd (constant e1) (constant e2) |}.

(** [pulp.lpSum(es)]. *)
Definition lpSum (es : list LpAffineExpression) : LpAffineExpression :=
  foldl addInPlace {| terms := []; constant := 0 |} es.

(** [e >= b] and [e <= b]. *)
Definition ge (e : LpAffineExpression) (b : Q) : LpConstraint :=
  {| lhs := e; sense := LpConstraintGE; rhs := b; cname := None |}.
Definition le (e : LpAffineExpression) (b : Q) : LpConstraint :=
  {| lhs := e; sense := LpConstraintLE; rhs := b; cname := None |}.

(** A constraint under the name it is added with. *)
Definition named (c : LpConstraint) (n : string) : LpConstraint :=
  {| lhs := lhs c; sense := sense c; rhs := rhs c; cname := Some n |}.

(** The right-hand sides of [prob += ...]: an expression becomes the
    objective, a constraint is appended, a pair names the constraint. *)
Inductive Addend :=
| Objective (e : LpAffineExpression)
| Constraint (c : LpConstraint)
| Named (c : LpConstraint) (n : string).

Definition iadd (p : LpProblem) (x : Addend) : LpProblem :=
  match x with
  | Objective e =>
      {| pname := pname p; psense := psense p; objective := Some e;
         constraints := constraints p |}
  | Constraint c =>
      {| pname := pname p; psense := psense p; objective := objective p;
         constraints := constraints p ++ [c] |}
  | Named c n =>
      {| pname := pname p; psense := psense p; objective := objective p;
         constraints := constraints p ++ [named c n] |}
  end.

(** [prob.variables()]: the variables of the objective and of the
    constraints, each once, sorted by name. *)
Definition known (seen : list LpVariable) (v : LpVariable) : bool :=
  existsb (λ w, String.eqb (key w) (key v)) seen.

Definition addVariables (seen vs : list LpVariable) : list LpVariable :=
  foldl (λ acc v, if known acc v then acc else acc ++ [v]) seen vs.

Fixpoint insert_by_name (v : LpVariable) (vs : list LpVariable)
  : list LpVariable :=
  match vs with
  | [] => [v]
  | w :: vs' =>
      if String.ltb (name v) (name w) then v :: w :: vs'
      else w :: insert_by_name v vs'
  end.

Definition sort_by_name (vs : list LpVariable) : list LpVariable :=
  foldl (λ acc v, insert_by_name v acc) [] vs.

Definition expr_vars (e : LpAffineExpression) : list LpVariable :=
  (terms e).*1.

Definition variables (p : LpProblem) : list LpVariable :=
  let from_objective :=
    addVariables [] (from_option expr_vars [] (objective p)) in
  sort_by_name
    (foldl (λ acc c, addVariables acc (expr_vars (lhs c)))
           from_objective (constraints p)).

(** [e.value()]: the constant, to which the value of each variable times
    its coefficient is added in floats, term after term; [None] as soon as
    a variable has no value. *)
Definition value (s : gmap string Q) (e : LpAffineExpression) : option Q :=
  foldl (λ acc vc, a ← acc; x ← s !! key vc.1; Some (fadd a (fmul x vc.2)))
        (Some (constant e)) (terms e).

(** *** What a model means

    The meaning of a problem is over exact numbers: an expression
    evaluates to the exact sum of its coefficients times the values. *)

Definition eval (x : string → Q) (e : LpAffineExpression) : Q :=
  foldr (λ vc a, (x (key vc.1) * vc.2 + a)%Q) (constant e) (terms e).

Definition in_bounds (v : LpVariable) (q : Q) : bool :=
  from_option (λ l, Qle_bool l q) true (lowBound v)
  && from_option (λ u, Qle_bool q u) true (upBound v).

Definition in_domain (c : LpCategory) (q : Q) : bool :=
  match c with
  | LpContinuous => true
  | LpInteger => is_integer q
  | LpBinary => Qeq_bool q 0 || Qeq_bool q 1
  end.

Definition holds (x : string → Q) (c : LpConstraint) : bool :=
  match sense c with
  | LpConstraintLE => Qle_bool (eval x (lhs c)) (rhs c)
  | LpConstraintEQ => Qeq_bool (eval x (lhs c)) (rhs c)
  | LpConstraintGE => Qle_bool (rhs c) (eval x (lhs c))
  end.

(** An assignment is feasible when every variable is within its bounds
    and its category and every constraint holds. *)
Definition feasible (p : LpProblem) (x : string → Q) : bool :=
  forallb (λ v, in_bounds v (x (key v)) && in_domain (cat v) (x (key v)))
          (variables p)
  && forallb (holds x) (constraints p).

End pulp.

(** ** The script *)

(** What the script prints, line by line. *)
Inductive Line :=
| StatusLine (s : string)
| ServingLine (name : string) (value : Q)
| CostLine (cost : Q).

(** A run prints lines and either ends or stops at a [TypeError] (a
    comparison or a rounding of [None]). *)
Inductive Run :=
| Finished (out : list Line)
| TypeError (out : list Line).

Section linear_prog.

(** pulp's name for the variable of index [i] in
    [LpVariable.dicts(prefix, ...)]. *)
Variable var_name : string → string → string.
(** pulp's table [LpStatus]. *)
Variable LpStatus : Z → string.
(** [prob.solve()]. *)
Variable solve : pulp.LpProblem → pulp.Solution.

(** [pulp.LpVariable(name, lowBound, upBound, cat)], for index [i] of a
    dictionary of variables. *)
Definition LpVariable_new (prefix : string) (lowBound upBound : option Q)
    (cat : pulp.LpCategory) (i : string) : pulp.LpVariable :=
  {| pulp.key := i; pulp.name := var_name prefix i;
     pulp.lowBound := lowBound; pulp.upBound := upBound; pulp.cat := cat |}.

(** [pulp.LpVariable.dicts(prefix, indices, lowBound, upBound, cat)]. *)
Definition LpVariable_dicts (prefix : string) (indices : list string)
    (lowBound upBound : option Q) (cat : pulp.LpCategory)
  : gmap string pulp.LpVariable :=
  foldl (λ d i, <[i := LpVariable_new prefix lowBound upBound cat i]> d)
        ∅ indices.

(** [[coef[f] * food_vars[f] for f in foods]]; a missing key is a
    [KeyError]. *)
Definition products (coef : gmap string Q)
    (food_vars : gmap string pulp.LpVariable) (foods : list string)
  : option (list pulp.LpAffineExpression) :=
  mapM (λ f, c ← coef !! f; v ← food_vars !! f; Some (pulp.mul c v)) foods.

(** [pulp.lpSum([coef[f] * food_vars[f] for f in foods])]. *)
Definition weighted_sum (coef : gmap string Q)
    (food_vars : gmap string pulp.LpVariable) (foods : list string)
  : option pulp.LpAffineExpression :=
  pulp.lpSum <$> products coef food_vars foods.

(** Line 60: the dictionary of food variables. *)
Definition food_vars_of (foods : list string) : gmap string pulp.LpVariable :=
  LpVariable_dicts "Food" foods (Some 0%Q) None pulp.LpInteger.

(** Lines 44 to 76: the problem the script builds from the sheet. *)
Definition build (sheet : list Row) : option pulp.LpProblem :=
  let prob := pulp.new_problem "Simple Diet Problem" pulp.LpMinimize in
  let df := read_excel sheet 17 in
  let foods := column Foods df in
  let costs := dict_zip foods (column Price_Serving df) in
  let calories := dict_zip foods (column Calories df) in
  let fat := dict_zip foods (column Total_Fat df) in
  let carbs := dict_zip foods (column Carbohydrates df) in
  let food_vars := food_vars_of foods in
  e ← weighted_sum costs food_vars foods;
  let prob := pulp.iadd prob (pulp.Objective e) in
  e ← weighted_sum calories food_vars foods;
  let prob := pulp.iadd prob (pulp.Constraint (pulp.ge e 800)) in
  e ← weighted_sum calories food_vars foods;
  let prob := pulp.iadd prob (pulp.Constraint (pulp.le e 1300)) in
  e ← weighted_sum fat food_vars foods;
  let prob := pulp.iadd prob (pulp.Named (pulp.ge e 20) "FatMinimum") in
  e ← weighted_sum fat food_vars foods;
  let prob := pulp.iadd prob (pulp.Named (pulp.le e 50) "FatMaximum") in
  e ← weighted_sum carbs food_vars foods;
  let prob := pulp.iadd prob (pulp.Named (pulp.ge e 130) "CarbsMinimum") in
  e ← weighted_sum carbs food_vars foods;
  let prob := pulp.iadd prob (pulp.Named (pulp.le e 200) "CarbsMaximum") in
  Some prob.

(** Lines 85 to 87: the loop over [prob.variables()]. *)
Fixpoint print_servings (s : gmap string Q) (vs : list pulp.LpVariable)
    (out : list Line) : Run :=
  match vs with
  | [] => Finished out
  | v :: vs' =>
      match s !! pulp.key v with
      | None => TypeError out
      | Some q =>
          if gt0 q
          then print_servings s vs' (out ++ [ServingLine (pulp.name v) q])
          else print_servings s vs' out
      end
  end.

(** Lines 82 to 91: everything the script prints after the solve.  The
    objective was set at line 63; its value is [None] when a variable has
    none, and rounding [None] is a [TypeError] too. *)
Definition report (prob : pulp.LpProblem) (r : pulp.Solution) : Run :=
  let out := [StatusLine (LpStatus (pulp.status r))] in
  match print_servings (pulp.varValue r) (pulp.variables prob) out with
  | TypeError out => TypeError out
  | Finished out =>
      match pulp.objective prob ≫= pulp.value (pulp.varValue r) with
      | None => TypeError out
      | Some obj => Finished (out ++ [CostLine (round2 obj)])
      end
  end.

(** The whole script; [None] is a [KeyError] while building. *)
Definition main (sheet : list Row) : option Run :=
  prob ← build sheet; Some (report prob (solve prob)).

End linear_prog.

(** ** A small sheet to run the script on *)

Definition example_sheet : list Row :=
  [ {| Foods := "A"; Price_Serving := 2; Calories := 100;
       Total_Fat := 5; Carbohydrates := 20 |};
    {| Foods := "B"; Price_Serving := 3; Calories := 250;
       Total_Fat := 5; Carbohydrates := 40 |};
    {| Foods := "C"; Price_Serving := 5; Calories := 400;
       Total_Fat := 30; Carbohydrates := 10 |} ].

Definition example_name (prefix i : string) : string := prefix +:+ "_" +:+ i.

Definition example_status (z : Z) : string :=
  if (z =? 1)%Z then "Optimal" else "Not Solved".

(** A solver answer for [example_sheet]: one serving of A, three of B. *)
Definition example_solve (p : pulp.LpProblem) : pulp.Solution :=
  {| pulp.status := 1;
     pulp.varValue := <["A" := 1%Q]> (<["B" := 3%Q]> (<["C" := 0%Q]> ∅)) |}.

Definition example_servings (f : string) : Q :=
  default 0%Q (pulp.varValue (example_solve (pulp.new_problem "" pulp.LpMinimize)) !! f).

(** The problem the script builds from [example_sheet] (it does build
    one, see [example_build]). *)
Definition example_prob : pulp.LpProblem :=
  Eval vm_compute in
    default (pulp.new_problem "" pulp.LpMinimize)
            (build example_name example_sheet).

(** A food without calories, fat or carbohydrates, the small sheet with it
    added, a sheet with nothing else, and the problems built from both. *)
Definition example_water : Row :=
  {| Foods := "Water"; Price_Serving := 1; Calories := 0;
     Total_Fat := 0; Carbohydrates := 0 |}.

Definition example_water_sheet : list Row := example_sheet ++ [example_water].

Definition example_water_prob : pulp.LpProblem :=
  Eval vm_compute in
    default (pulp.new_problem "" pulp.LpMinimize)
            (build example_name example_water_sheet).

Definition example_dry_sheet : list Row := [example_water].

Definition example_dry_prob : pulp.LpProblem :=
  Eval vm_compute in
    default (pulp.new_problem "" pulp.LpMinimize)
            (build example_name example_dry_sheet).

(** A food whose price and nutrients are all 0, the small sheet with it
    added, the problem built from it, and an assignment that gives that
    food half a serving less than none. *)
Definition example_tap : Row :=
  {| Foods := "Tap"; Price_Serving := 0; Calories := 0;
     Total_Fat := 0; Carbohydrates := 0 |}.

Definition example_tap_sheet : list Row := example_sheet ++ [example_tap].

Definition example_tap_prob : pulp.LpProblem :=
  Eval vm_compute in
    default (pulp.new_problem "" pulp.LpMinimize)
            (build example_name example_tap_sheet).

Definition example_tap_servings (f : string) : Q :=
  if String.eqb f "Tap" then (-1 # 2)%Q else example_servings f.




(** A sheet with one food name on three rows, priced at the float 0.1. *)
Definition example_thrice_sheet : list Row :=
  let row := {| Foods := "T"; Price_Serving := binary64 (1 # 10);
                Calories := 300; Total_Fat := 10; Carbohydrates := 50 |} in
  [row; row; row].

(** ** Vocabulary for the properties of the sheet *)

(** The sum of [w r] over the rows of a frame. *)
Definition total (w : Row → Q) (df : list Row) : Q :=
  foldr (λ r a, (w r + a)%Q) 0%Q df.


(** The last row of a frame that carries the food name [f]. *)
Definition last_row (df : list Row) (f : string) : option Row :=
  last (filter (λ r, Foods r = f) df).

(** A row with a price or a nutrient that is not 0. *)
Definition nonzero_row (r : Row) : bool :=
  negb (Qeq_bool (Price_Serving r) 0 && Qeq_bool (Calories r) 0
        && Qeq_bool (Total_Fat r) 0 && Qeq_bool (Carbohydrates r) 0).

(** A food name whose last row is such a row: its dictionary entries are
    not all 0. *)
Definition in_problem (df : list Row) (f : string) : bool :=
  from_option nonzero_row false (last_row df f).

(** What adding [c] into a coefficient leaves: [c] where there was none or
    0, the float sum otherwise (see [pulp.addterm]). *)
Definition added (y : option Q) (c : Q) : Q :=
  match y with
  | Some y => if Qeq_bool y 0 then c else fadd y c
  | None => c
  end.

(** The coefficient after [k] additions of [c], none before the first. *)
Definition repeated (c : Q) (k : nat) : option Q :=
  Nat.iter k (λ y, Some (added y c)) None.

(** The coefficient an expression holds for a variable, if it holds one. *)
Fixpoint coefficient (ts : list (pulp.LpVariable * Q)) (v : pulp.LpVariable)
  : option Q :=
  match ts with
  | [] => None
  | (v', c') :: ts' =>
      if String.eqb (pulp.key v') (pulp.key v) then Some c'
      else coefficient ts' v
  end.

(** * Properties *)

(** ** Numbers *)


Lemma is_integer_spec (q : Q) :
  is_integer q = true ↔ ∃ n : Z, (q == inject_Z n)%Q.
Proof.
  unfold is_integer. rewrite Qeq_bool_iff. split; [eauto |].
  intros [n ->]. by rewrite Qfloor_Z.
Qed.




Lemma round_half_even_comp (q q' : Q) :
  (q == q')%Q → round_half_even q = round_half_even q'.
Proof.
  intros E. unfold round_half_even.
  assert (Qfloor q = Qfloor q') as -> by (by rewrite E).
  assert ((q - inject_Z (Qfloor q') ?= 1 # 2)%Q
          = (q' - inject_Z (Qfloor q') ?= 1 # 2)%Q) as ->; [| done].
  by rewrite E.
Qed.

Lemma round_half_even_nonneg (q : Q) : (0 <= q)%Q → (0 ≤ round_half_even q)%Z.
Proof.
  intros H. unfold round_half_even.
  assert (0 ≤ Qfloor q)%Z as Hf.
  { change 0%Z with (Qfloor 0). by apply Qfloor_resp_le. }
  destruct (_ ?= _)%Q; [destruct (Z.even _) | |]; lia.
Qed.

(** *** Binary64 *)

(** Rounding sees the number, not the fraction that writes it. *)
Lemma binary64_comp (q q' : Q) : (q == q')%Q → binary64 q = binary64 q'.
Proof. intros E. unfold binary64. by rewrite (Qred_complete q q' E). Qed.

(** Rounding does not change the sign. *)
Lemma binary64_nonpos (q : Q) : (q <= 0)%Q → (binary64 q <= 0)%Q.
Proof.
  intros H. unfold binary64.
  destruct (Qeq_bool (Qred q) 0) eqn:E0; [lra |].
  destruct (Qle_bool 0 (Qred q)) eqn:E1.
  - apply Qle_bool_iff in E1. rewrite Qred_correct in E1.
    apply Qeq_bool_neq in E0. rewrite Qred_correct in E0.
    exfalso. apply E0. lra.
  - rewrite !Qred_correct.
    set (e := Z.max _ _).
    pose proof (round_half_even_nonneg (Qabs (Qred q) / 2 ^ e)) as Hm.
    assert (0 < 2 ^ e)%Q as He by (apply Qpower_0_lt; lra).
    assert (0 <= Qabs (Qred q) / 2 ^ e)%Q as Ha.
    { apply Qle_shift_div_l; [done |]. rewrite Qmult_0_l. apply Qabs_nonneg. }
    specialize (Hm Ha). rewrite Zle_Qle in Hm.
    change (inject_Z 0) with 0%Q in Hm.
    set (m := inject_Z (round_half_even _)) in *.
    assert (0 <= m * 2 ^ e)%Q by (apply Qmult_le_0_compat; lra). lra.
Qed.

Lemma fadd_nonpos (a b : Q) : (a <= 0)%Q → (b <= 0)%Q → (fadd a b <= 0)%Q.
Proof. intros. apply binary64_nonpos. lra. Qed.

(** ** Dictionaries *)

Lemma foldl_insert_is_Some {V} (l : list (string * V)) (d : gmap string V) k :
  is_Some (d !! k) ∨ k ∈ l.*1 →
  is_Some (foldl (λ d kv, <[kv.1 := kv.2]> d) d l !! k).
Proof.
  revert d. induction l as [|[k' v'] l IH]; intros d H; simpl.
  - destruct H as [H|H]; [done | by apply elem_of_nil in H].
  - apply IH. simpl in H. rewrite elem_of_cons in H.
    destruct (decide (k' = k)) as [->|Hne].
    + left. rewrite lookup_insert_eq. eauto.
    + destruct H as [H|[H|H]]; [| congruence | by right].
      left. by rewrite lookup_insert_ne.
Qed.

Lemma dict_zip_is_Some {V} (ks : list string) (vs : list V) k :
  length ks ≤ length vs → k ∈ ks → is_Some (dict_zip ks vs !! k).
Proof.
  intros Hlen Hk. apply foldl_insert_is_Some. right. by rewrite fst_zip.
Qed.

Lemma zip_columns {A} (col : Row → A) (df : DataFrame) :
  zip (column Foods df) (column col df) = (λ r, (Foods r, col r)) <$> df.
Proof. unfold column. induction df as [|r df IH]; simpl; [done | by f_equal]. Qed.

Lemma foldl_insert_rows {A} (col : Row → A) (df : DataFrame)
    (d : gmap string A) f :
  foldl (λ d kv, <[kv.1 := kv.2]> d) d ((λ r, (Foods r, col r)) <$> df) !! f
  = match last_row df f with
    | Some r => Some (col r)
    | None => d !! f
    end.
Proof.
  revert d. induction df as [|r df IH]; intros d; [done |].
  cbn [fmap list_fmap foldl]. rewrite IH. unfold last_row.
  rewrite filter_cons. cbn [fst snd].
  destruct (decide (Foods r = f)) as [E|E].
  - rewrite last_cons.
    destruct (last (filter (λ r, Foods r = f) df)); [done |].
    by rewrite E, lookup_insert_eq.
  - destruct (last (filter (λ r, Foods r = f) df)); [done |].
    by rewrite lookup_insert_ne.
Qed.

(** A dictionary of the sheet holds, for a food name, the column's value
    on the last row of that name. *)
Lemma dict_zip_lookup {A} (col : Row → A) (df : DataFrame) (f : string) :
  dict_zip (column Foods df) (column col df) !! f = col <$> last_row df f.
Proof.
  unfold dict_zip. rewrite zip_columns, foldl_insert_rows.
  by destruct (last_row df f).
Qed.

Lemma last_row_Some df f r :
  last_row df f = Some r → r ∈ df ∧ Foods r = f.
Proof.
  unfold last_row. intros H. apply last_Some_elem_of in H.
  by apply list_elem_of_filter in H as [? ?].
Qed.

Lemma last_row_NoDup df r :
  NoDup (column Foods df) → r ∈ df → last_row df (Foods r) = Some r.
Proof.
  unfold last_row, column. induction df as [|r' df IH]; intros Hnd Hr.
  - by apply elem_of_nil in Hr.
  - cbn [fmap list_fmap] in Hnd. apply NoDup_cons in Hnd as [Hnotin Hnd].
    rewrite filter_cons. apply elem_of_cons in Hr as [-> | Hr].
    + rewrite decide_True by done. rewrite last_cons.
      destruct (last _) as [r''|] eqn:E; [| done].
      apply last_Some_elem_of, list_elem_of_filter in E as [E Hin].
      exfalso. apply Hnotin. rewrite <- E. apply list_elem_of_fmap. eauto.
    + rewrite decide_False; [by apply IH |].
      intros E. apply Hnotin. rewrite E. apply list_elem_of_fmap. eauto.
Qed.

Section dictionaries_of_variables.
Context (var_name : string → string → string) (prefix : string).
Context (lb ub : option Q) (c : pulp.LpCategory).

Local Abbreviation new := (LpVariable_new var_name prefix lb ub c).

Lemma foldl_new_lookup (l : list string) (d : gmap string pulp.LpVariable) i :
  foldl (λ d i, <[i := new i]> d) d l !! i
  = if decide (i ∈ l) then Some (new i) else d !! i.
Proof.
  revert d. induction l as [|j l IH]; intros d; cbn [foldl].
  - by rewrite decide_False by apply not_elem_of_nil.
  - rewrite IH. destruct (decide (i ∈ l)) as [Hi|Hi].
    + by rewrite decide_True by (by right).
    + destruct (decide (j = i)) as [->|Hne].
      * rewrite lookup_insert_eq. by rewrite decide_True by left.
      * rewrite lookup_insert_ne by done.
        rewrite decide_False; [done |].
        rewrite elem_of_cons. intros [?|?]; congruence.
Qed.

Lemma LpVariable_dicts_lookup (indices : list string) i :
  LpVariable_dicts var_name prefix indices lb ub c !! i
  = if decide (i ∈ indices) then Some (new i) else None.
Proof.
  unfold LpVariable_dicts. fold new. rewrite foldl_new_lookup.
  by rewrite lookup_empty.
Qed.

(** The comprehension never meets a missing key when the coefficients
    were zipped from the same list of foods. *)
Lemma products_Some (coef : gmap string Q) (foods : list string) :
  (∀ f, f ∈ foods → is_Some (coef !! f)) →
  products coef (LpVariable_dicts var_name prefix foods lb ub c) foods
  = Some ((λ f, pulp.mul (default 0%Q (coef !! f)) (new f)) <$> foods).
Proof.
  intros Hcoef. unfold products. apply mapM_Some, Forall2_fmap_r, Forall_Forall2_diag.
  apply Forall_forall. intros f Hf.
  destruct (Hcoef f Hf) as [q Hq]. simpl. rewrite !Hq. simpl.
  rewrite LpVariable_dicts_lookup. by rewrite decide_True by done.
Qed.
End dictionaries_of_variables.

(** ** Which variables an accumulation holds

    Sums of expressions and [prob.variables()] are all loops that merge
    variables into an accumulator by identity.  Three facts about one step
    give the same three facts about the loop. *)

Section accumulate.
Context {A B : Type} (step : A → B → A).
Context (seen : A → list pulp.LpVariable) (brings : B → list pulp.LpVariable).

Hypothesis step_inv :
  ∀ a b w, w ∈ seen (step a b) → w ∈ seen a ∨ w ∈ brings b.
Hypothesis step_mono : ∀ a b w, w ∈ seen a → w ∈ seen (step a b).
Hypothesis step_key :
  ∀ a b v, v ∈ brings b → pulp.key v ∈ pulp.key <$> seen (step a b).

Lemma foldl_inv a bs w :
  w ∈ seen (foldl step a bs) → w ∈ seen a ∨ ∃ b, b ∈ bs ∧ w ∈ brings b.
Proof.
  revert a. induction bs as [|b bs IH]; intros a H; cbn [foldl] in H.
  - by left.
  - destruct (IH _ H) as [H'|(b' & Hb' & Hw)].
    + destruct (step_inv _ _ _ H') as [?|?]; [by left | right].
      exists b. split; [left | done].
    + right. exists b'. split; [by right | done].
Qed.

Lemma foldl_mono a bs w : w ∈ seen a → w ∈ seen (foldl step a bs).
Proof.
  revert a. induction bs as [|b bs IH]; intros a H; cbn [foldl]; auto.
Qed.

Lemma foldl_key a bs b v :
  b ∈ bs → v ∈ brings b → pulp.key v ∈ pulp.key <$> seen (foldl step a bs).
Proof.
  revert a. induction bs as [|b' bs IH]; intros a Hb Hv; cbn [foldl].
  - by apply elem_of_nil in Hb.
  - apply elem_of_cons in Hb as [->|Hb]; [| by apply IH].
    apply (step_key a) in Hv. apply list_elem_of_fmap in Hv as (w & -> & Hw).
    apply list_elem_of_fmap. exists w. split; [done | by apply foldl_mono].
Qed.
End accumulate.

(** *** Sums *)

Lemma addterm_inv ts v c w :
  w ∈ (pulp.addterm ts v c).*1 → w ∈ ts.*1 ∨ w = v.
Proof.
  induction ts as [|[v' c'] ts IH]; simpl.
  - rewrite list_elem_of_singleton. by right.
  - destruct (String.eqb _ _); simpl; rewrite !elem_of_cons; [by left |].
    intros [->|H]; [by left; left |].
    destruct (IH H); [left; by right | by right].
Qed.

Lemma addterm_mono ts v c w : w ∈ ts.*1 → w ∈ (pulp.addterm ts v c).*1.
Proof.
  induction ts as [|[v' c'] ts IH]; simpl.
  - intros H. by apply elem_of_nil in H.
  - destruct (String.eqb _ _); simpl; rewrite !elem_of_cons; [done |].
    intros [->|H]; [by left | right; auto].
Qed.

Lemma addterm_key ts v c :
  pulp.key v ∈ pulp.key <$> (pulp.addterm ts v c).*1.
Proof.
  induction ts as [|[v' c'] ts IH]; simpl.
  - left.
  - destruct (String.eqb _ _) eqn:E; simpl.
    + apply String.eqb_eq in E. rewrite <- E. left.
    + by right.
Qed.

Lemma addInPlace_inv e1 e2 w :
  w ∈ pulp.expr_vars (pulp.addInPlace e1 e2) →
  w ∈ pulp.expr_vars e1 ∨ w ∈ pulp.expr_vars e2.
Proof.
  unfold pulp.expr_vars, pulp.addInPlace. simpl. intros H.
  apply (foldl_inv (λ ts vc, pulp.addterm ts vc.1 vc.2) (λ ts, ts.*1) (λ vc, [vc.1]))
    in H as [H|((v & c) & Hvc & Hw)]; [by left | | ].
  - right. apply list_elem_of_singleton in Hw as ->.
    apply list_elem_of_fmap. by exists (v, c).
  - intros a b w' Hw'. apply addterm_inv in Hw' as [? | ->]; [by left | right; left].
Qed.

Lemma addInPlace_mono e1 e2 w :
  w ∈ pulp.expr_vars e1 → w ∈ pulp.expr_vars (pulp.addInPlace e1 e2).
Proof.
  unfold pulp.expr_vars, pulp.addInPlace. simpl.
  apply (foldl_mono (λ ts vc, pulp.addterm ts vc.1 vc.2) (λ ts, ts.*1)).
  intros a b w'. apply addterm_mono.
Qed.

Lemma addInPlace_key e1 e2 v :
  v ∈ pulp.expr_vars e2 →
  pulp.key v ∈ pulp.key <$> pulp.expr_vars (pulp.addInPlace e1 e2).
Proof.
  unfold pulp.expr_vars, pulp.addInPlace. simpl. intros H.
  apply list_elem_of_fmap in H as ((v' & c) & -> & Hvc).
  apply (foldl_key (λ ts vc, pulp.addterm ts vc.1 vc.2) (λ ts, ts.*1) (λ vc, [vc.1]))
    with (b := (v', c)); [| | done | left].
  - intros a b w'. apply addterm_mono.
  - intros a b w' Hw'. apply list_elem_of_singleton in Hw' as ->. apply addterm_key.
Qed.

Lemma lpSum_inv es w :
  w ∈ pulp.expr_vars (pulp.lpSum es) → ∃ e, e ∈ es ∧ w ∈ pulp.expr_vars e.
Proof.
  intros H.
  apply (foldl_inv pulp.addInPlace pulp.expr_vars pulp.expr_vars) in H
    as [H|H]; [by apply elem_of_nil in H | done |].
  apply addInPlace_inv.
Qed.

Lemma lpSum_key es e v :
  e ∈ es → v ∈ pulp.expr_vars e →
  pulp.key v ∈ pulp.key <$> pulp.expr_vars (pulp.lpSum es).
Proof.
  apply (foldl_key pulp.addInPlace pulp.expr_vars pulp.expr_vars).
  - apply addInPlace_mono.
  - apply addInPlace_key.
Qed.

(** A variable the expression does not hold yet is appended with its
    coefficient as it is. *)
Lemma addterm_fresh ts v c :
  pulp.key v ∉ pulp.key <$> ts.*1 → pulp.addterm ts v c = ts ++ [(v, c)].
Proof.
  induction ts as [|[v' c'] ts IH]; simpl; [done |].
  intros H. rewrite not_elem_of_cons in H. destruct H as [Hne H].
  destruct (String.eqb _ _) eqn:E.
  - apply String.eqb_eq in E. congruence.
  - by rewrite IH.
Qed.

Lemma foldl_addterm_fresh ts ts' :
  NoDup (pulp.key <$> (ts ++ ts').*1) →
  foldl (λ ts vc, pulp.addterm ts vc.1 vc.2) ts ts' = ts ++ ts'.
Proof.
  revert ts. induction ts' as [|[v c] ts' IH]; intros ts Hnd; cbn [foldl].
  - by rewrite app_nil_r.
  - cbn [fst snd]. rewrite addterm_fresh.
    + rewrite IH; rewrite <- app_assoc; done.
    + rewrite !fmap_app in Hnd. apply NoDup_app in Hnd as (_ & Hnd & _).
      intros Hin. apply (Hnd _ Hin). simpl. left.
Qed.

Lemma foldl_addInPlace_fresh e0 es :
  NoDup (pulp.key <$> (pulp.terms e0 ++ es ≫= pulp.terms).*1) →
  pulp.terms (foldl pulp.addInPlace e0 es) = pulp.terms e0 ++ es ≫= pulp.terms.
Proof.
  revert e0. induction es as [|e es IH]; intros e0 Hnd; cbn [foldl].
  - simpl. by rewrite app_nil_r.
  - rewrite bind_cons in *. rewrite app_assoc in Hnd.
    assert (pulp.terms (pulp.addInPlace e0 e) = pulp.terms e0 ++ pulp.terms e) as E.
    { unfold pulp.addInPlace. simpl. apply foldl_addterm_fresh.
      rewrite !fmap_app in Hnd. rewrite !fmap_app.
      by apply NoDup_app in Hnd as (? & _ & _). }
    rewrite IH; rewrite E; [by rewrite <- app_assoc | done].
Qed.

(** Expressions over different variables are summed by putting their
    terms one after the other. *)
Lemma lpSum_fresh es :
  NoDup (pulp.key <$> (es ≫= pulp.terms).*1) →
  pulp.terms (pulp.lpSum es) = es ≫= pulp.terms.
Proof. intros H. unfold pulp.lpSum. by rewrite foldl_addInPlace_fresh. Qed.

Lemma lpSum_constant es :
  (∀ e, e ∈ es → pulp.constant e = 0%Q) → pulp.constant (pulp.lpSum es) = 0%Q.
Proof.
  unfold pulp.lpSum.
  enough (∀ e0, pulp.constant e0 = 0%Q →
                (∀ e, e ∈ es → pulp.constant e = 0%Q) →
                pulp.constant (foldl pulp.addInPlace e0 es) = 0%Q) as H
    by (by apply H).
  induction es as [|e es IH]; intros e0 H0 H; cbn [foldl]; [done |].
  apply IH.
  - simpl. rewrite H0, (H e) by left. reflexivity.
  - intros e' He'. apply H. by right.
Qed.

(** Sums of coefficients that are not positive are not positive. *)
Lemma addterm_nonpos ts v c :
  Forall (λ vc, (vc.2 <= 0)%Q) ts → (c <= 0)%Q →
  Forall (λ vc, (vc.2 <= 0)%Q) (pulp.addterm ts v c).
Proof.
  intros Hts Hc. induction Hts as [|[v' c'] ts H1 H2 IH]; simpl.
  - by constructor.
  - destruct (String.eqb _ _); constructor; try done. simpl in *.
    destruct (Qeq_bool c' 0); [done | by apply fadd_nonpos].
Qed.

Lemma lpSum_nonpos es :
  Forall (λ e, Forall (λ vc, (vc.2 <= 0)%Q) (pulp.terms e)) es →
  Forall (λ vc, (vc.2 <= 0)%Q) (pulp.terms (pulp.lpSum es)).
Proof.
  unfold pulp.lpSum.
  enough (∀ e0, Forall (λ vc, (vc.2 <= 0)%Q) (pulp.terms e0) →
                Forall (λ e, Forall (λ vc, (vc.2 <= 0)%Q) (pulp.terms e)) es →
                Forall (λ vc, (vc.2 <= 0)%Q)
                       (pulp.terms (foldl pulp.addInPlace e0 es))) as H
    by (apply H; constructor).
  induction es as [|e es IH]; intros e0 H0 H; cbn [foldl]; [done |].
  apply Forall_cons in H as [He H]. apply IH; [| done].
  unfold pulp.addInPlace. simpl. clear IH H.
  revert H0. generalize (pulp.terms e0).
  induction He as [|[v c] ts Hc Hts IH]; intros ts0 H0; cbn [foldl]; [done |].
  apply IH. by apply addterm_nonpos.
Qed.

(** An expression holds a variable once. *)
Lemma addterm_NoDup ts v c :
  NoDup (pulp.key <$> ts.*1) → NoDup (pulp.key <$> (pulp.addterm ts v c).*1).
Proof.
  induction ts as [|[v' c'] ts IH]; simpl; intros Hnd.
  - apply NoDup_singleton.
  - apply NoDup_cons in Hnd as [Hnotin Hnd].
    destruct (String.eqb _ _) eqn:E; simpl; apply NoDup_cons.
    + done.
    + split; [| by apply IH]. intros Hin.
      apply list_elem_of_fmap in Hin as (w & Hk & Hw).
      apply addterm_inv in Hw as [Hw | ->].
      * apply Hnotin. rewrite Hk. by apply list_elem_of_fmap_2.
      * apply String.eqb_neq in E. congruence.
Qed.

Lemma lpSum_NoDup es : NoDup (pulp.key <$> pulp.expr_vars (pulp.lpSum es)).
Proof.
  unfold pulp.lpSum, pulp.expr_vars.
  enough (∀ e0, NoDup (pulp.key <$> (pulp.terms e0).*1) →
                NoDup (pulp.key <$> (pulp.terms (foldl pulp.addInPlace e0 es)).*1))
    as H by (apply H; constructor).
  induction es as [|e es IH]; intros e0 H0; cbn [foldl]; [done |].
  apply IH. unfold pulp.addInPlace. simpl.
  revert H0. generalize (pulp.terms e0).
  induction (pulp.terms e) as [|[v c] ts IHts]; intros ts0 H0; cbn [foldl]; [done |].
  apply IHts. by apply addterm_NoDup.
Qed.

(** The coefficient of a variable after an addition. *)
Lemma coefficient_addterm ts v c w :
  coefficient (pulp.addterm ts v c) w
  = if String.eqb (pulp.key v) (pulp.key w)
    then Some (added (coefficient ts w) c)
    else coefficient ts w.
Proof.
  induction ts as [|[v' c'] ts IH]; simpl.
  - by destruct (String.eqb _ _).
  - destruct (String.eqb (pulp.key v') (pulp.key v)) eqn:E1; simpl.
    + apply String.eqb_eq in E1. rewrite E1.
      by destruct (String.eqb (pulp.key v) (pulp.key w)).
    + destruct (String.eqb (pulp.key v') (pulp.key w)) eqn:E2; [| done].
      apply String.eqb_eq in E2. rewrite <- E2.
      rewrite String.eqb_sym in E1. by rewrite E1.
Qed.

(** *** [prob.variables()] *)

Lemma known_spec seen v :
  pulp.known seen v = true ↔ pulp.key v ∈ pulp.key <$> seen.
Proof.
  unfold pulp.known. rewrite existsb_exists, list_elem_of_fmap.
  split.
  - intros (w & Hw & E). apply String.eqb_eq in E.
    exists w. split; [done | by apply list_elem_of_In].
  - intros (w & E & Hw). exists w.
    split; [by apply list_elem_of_In | by apply String.eqb_eq].
Qed.

Lemma addVariables_inv seen vs w :
  w ∈ pulp.addVariables seen vs → w ∈ seen ∨ w ∈ vs.
Proof.
  intros H.
  apply (foldl_inv _ (λ acc, acc) (λ v, [v])) in H as [H|(v & Hv & Hw)].
  - by left.
  - right. by apply list_elem_of_singleton in Hw as ->.
  - intros a b w'. destruct (pulp.known a b); [by left |].
    rewrite elem_of_app. tauto.
Qed.

Lemma addVariables_mono seen vs w :
  w ∈ seen → w ∈ pulp.addVariables seen vs.
Proof.
  apply (foldl_mono _ (λ acc, acc)).
  intros a b w'. destruct (pulp.known a b); [done |].
  rewrite elem_of_app. by left.
Qed.

Lemma addVariables_key seen vs v :
  v ∈ vs → pulp.key v ∈ pulp.key <$> pulp.addVariables seen vs.
Proof.
  intros Hv.
  apply (foldl_key _ (λ acc, acc) (λ v, [v])) with (b := v); [| | done | left].
  - intros a b w'. destruct (pulp.known a b); [done |].
    rewrite elem_of_app. by left.
  - intros a b w' Hw'. apply list_elem_of_singleton in Hw' as ->.
    destruct (pulp.known a b) eqn:E.
    + by apply known_spec.
    + rewrite fmap_app, elem_of_app. right. left.
Qed.

Lemma insert_by_name_elem v vs w :
  w ∈ pulp.insert_by_name v vs ↔ w = v ∨ w ∈ vs.
Proof.
  induction vs as [|u vs IH]; simpl.
  - rewrite list_elem_of_singleton, elem_of_nil. tauto.
  - destruct (String.ltb _ _).
    + by rewrite elem_of_cons.
    + rewrite !elem_of_cons, IH. tauto.
Qed.

Lemma sort_by_name_elem vs w : w ∈ pulp.sort_by_name vs ↔ w ∈ vs.
Proof.
  unfold pulp.sort_by_name.
  enough (∀ acc, w ∈ foldl (λ acc v, pulp.insert_by_name v acc) acc vs
                 ↔ w ∈ acc ∨ w ∈ vs) as H.
  { rewrite H, elem_of_nil. tauto. }
  induction vs as [|v vs IH]; intros acc; cbn [foldl].
  - rewrite elem_of_nil. tauto.
  - rewrite IH, insert_by_name_elem, elem_of_cons. tauto.
Qed.

(** Every variable [prob.variables()] returns occurs in the objective or
    in a constraint. *)
Lemma variables_inv p w :
  w ∈ pulp.variables p →
  (∃ e, pulp.objective p = Some e ∧ w ∈ pulp.expr_vars e)
  ∨ ∃ c, c ∈ pulp.constraints p ∧ w ∈ pulp.expr_vars (pulp.lhs c).
Proof.
  unfold pulp.variables. rewrite sort_by_name_elem. intros H.
  apply (foldl_inv _ (λ acc, acc) (λ c, pulp.expr_vars (pulp.lhs c))) in H
    as [H|H]; [| by right |].
  - apply addVariables_inv in H as [H|H]; [by apply elem_of_nil in H |].
    left. destruct (pulp.objective p) as [e|]; simpl in H; [eauto |].
    by apply elem_of_nil in H.
  - intros a b w'. apply addVariables_inv.
Qed.

(** Every variable of the objective is, by identity, among
    [prob.variables()]; so is every variable of a constraint. *)
Lemma variables_objective p e v :
  pulp.objective p = Some e → v ∈ pulp.expr_vars e →
  pulp.key v ∈ pulp.key <$> pulp.variables p.
Proof.
  intros He Hv. unfold pulp.variables. rewrite He. simpl.
  pose proof (addVariables_key [] _ _ Hv) as H.
  apply list_elem_of_fmap in H as (w & -> & Hw).
  apply list_elem_of_fmap. exists w. split; [done |].
  apply sort_by_name_elem.
  apply (foldl_mono _ (λ acc, acc)); [| done].
  intros a b w'. apply addVariables_mono.
Qed.

Lemma variables_constraint p c v :
  c ∈ pulp.constraints p → v ∈ pulp.expr_vars (pulp.lhs c) →
  pulp.key v ∈ pulp.key <$> pulp.variables p.
Proof.
  intros Hc Hv. unfold pulp.variables.
  set (acc0 := pulp.addVariables [] _).
  pose proof (foldl_key (λ acc c, pulp.addVariables acc (pulp.expr_vars (pulp.lhs c)))
                (λ acc, acc) (λ c, pulp.expr_vars (pulp.lhs c))) as H.
  specialize (H (λ a b w, addVariables_mono a _ w)
                (λ a b v, addVariables_key a _ v) acc0 _ c v Hc Hv).
  apply list_elem_of_fmap in H as (w & -> & Hw).
  apply list_elem_of_fmap. exists w. split; [done | by apply sort_by_name_elem].
Qed.

Lemma addVariables_NoDup seen vs :
  NoDup (pulp.key <$> seen) → NoDup (pulp.key <$> pulp.addVariables seen vs).
Proof.
  unfold pulp.addVariables. revert seen.
  induction vs as [|v vs IH]; intros seen Hnd; cbn [foldl]; [done |].
  apply IH. destruct (pulp.known seen v) eqn:E; [done |].
  rewrite fmap_app. apply NoDup_app. split; [done |]. split.
  - intros k Hk Hin. apply list_elem_of_singleton in Hin as ->.
    apply known_spec in Hk. congruence.
  - apply NoDup_singleton.
Qed.

Lemma insert_by_name_perm v vs : pulp.insert_by_name v vs ≡ₚ v :: vs.
Proof.
  induction vs as [|w vs IH]; simpl; [done |].
  destruct (String.ltb _ _); [done |]. rewrite IH. apply Permutation_swap.
Qed.

Lemma sort_by_name_perm vs : pulp.sort_by_name vs ≡ₚ vs.
Proof.
  unfold pulp.sort_by_name.
  enough (∀ acc, foldl (λ acc v, pulp.insert_by_name v acc) acc vs ≡ₚ vs ++ acc)
    as H by (by rewrite H, app_nil_r).
  induction vs as [|v vs IH]; intros acc; cbn [foldl]; [done |].
  rewrite IH, insert_by_name_perm. simpl. by rewrite Permutation_middle.
Qed.

(** [prob.variables()] holds no variable twice. *)
Lemma variables_NoDup p : NoDup (pulp.key <$> pulp.variables p).
Proof.
  unfold pulp.variables. rewrite sort_by_name_perm.
  generalize (pulp.constraints p).
  assert (NoDup (pulp.key <$> pulp.addVariables []
            (from_option pulp.expr_vars [] (pulp.objective p)))) as H0
    by (apply addVariables_NoDup; constructor).
  revert H0. generalize (pulp.addVariables []
            (from_option pulp.expr_vars [] (pulp.objective p))).
  intros acc Hacc cs. revert acc Hacc.
  induction cs as [|c cs IH]; intros acc Hacc; cbn [foldl]; [done |].
  apply IH. by apply addVariables_NoDup.
Qed.


(** ** The problem the script builds *)

Lemma omap_ext_in {A B} (g h : A → option B) (l : list A) :
  (∀ a, a ∈ l → g a = h a) → omap g l = omap h l.
Proof.
  induction l as [|a l IH]; intros H; [done |].
  cbn [omap list_omap]. rewrite (H a) by left. rewrite IH; [done |].
  intros a' Ha'. apply H. by right.
Qed.

Lemma in_problem_spec (df : list Row) f :
  in_problem df f = true
  ↔ Qeq_bool (from_option Price_Serving 0%Q (last_row df f)) 0 = false
    ∨ Qeq_bool (from_option Calories 0%Q (last_row df f)) 0 = false
    ∨ Qeq_bool (from_option Total_Fat 0%Q (last_row df f)) 0 = false
    ∨ Qeq_bool (from_option Carbohydrates 0%Q (last_row df f)) 0 = false.
Proof.
  unfold in_problem. destruct (last_row df f) as [r|]; simpl.
  - unfold nonzero_row.
    destruct (Qeq_bool (Price_Serving r) 0), (Qeq_bool (Calories r) 0),
      (Qeq_bool (Total_Fat r) 0), (Qeq_bool (Carbohydrates r) 0); simpl;
      intuition congruence.
  - change (Qeq_bool 0 0) with true. split; [discriminate |].
    intros [H | [H | [H | H]]]; discriminate.
Qed.

Section built_problem.
Context (var_name : string → string → string) (sheet : list Row).

Local Abbreviation df := (read_excel sheet 17).
Local Abbreviation foods := (column Foods df).
Local Abbreviation food_vars := (food_vars_of var_name foods).
Local Abbreviation food_var :=
  (LpVariable_new var_name "Food" (Some 0%Q) None pulp.LpInteger).

Lemma food_vars_lookup f v :
  food_vars !! f = Some v ↔ f ∈ foods ∧ v = food_var f.
Proof.
  unfold food_vars_of. rewrite LpVariable_dicts_lookup.
  destruct (decide (f ∈ foods)); split.
  - by intros [= <-].
  - by intros [_ ->].
  - discriminate.
  - by intros [? _].
Qed.

(** A weighted sum over the foods exists whatever the column: the sum of
    the products of each food's variable by the entry of its last row. *)
Lemma weighted_sum_products (col : Row → Q) :
  weighted_sum (dict_zip foods (column col df)) food_vars foods
  = Some (pulp.lpSum
            ((λ f, pulp.mul (from_option col 0%Q (last_row df f)) (food_var f))
             <$> foods)).
Proof.
  unfold weighted_sum, food_vars_of. rewrite products_Some.
  2:{ intros f Hf. apply dict_zip_is_Some; [| done].
      unfold column. by rewrite !length_fmap. }
  cbn [fmap option_fmap option_map]. do 2 f_equal.
  apply list_fmap_ext. intros i f Hf.
  rewrite dict_zip_lookup. by destruct (last_row df f).
Qed.

(** It holds the variables of the foods whose entry is not 0. *)
Lemma weighted_sum_vars (col : Row → Q) e w :
  weighted_sum (dict_zip foods (column col df)) food_vars foods = Some e →
  w ∈ pulp.expr_vars e
  ↔ ∃ f, f ∈ foods
         ∧ Qeq_bool (from_option col 0%Q (last_row df f)) 0 = false
         ∧ w = food_var f.
Proof.
  rewrite weighted_sum_products. intros E. apply (inj Some) in E as <-.
  assert (∀ w, w ∈ pulp.expr_vars (pulp.lpSum
            ((λ f, pulp.mul (from_option col 0%Q (last_row df f)) (food_var f))
             <$> foods)) →
          ∃ f, f ∈ foods
               ∧ Qeq_bool (from_option col 0%Q (last_row df f)) 0 = false
               ∧ w = food_var f) as Hinv.
  { intros w' Hw. apply lpSum_inv in Hw as (e & He & Hw).
    apply list_elem_of_fmap in He as (f & -> & Hf).
    unfold pulp.mul, pulp.expr_vars in Hw.
    destruct (Qeq_bool _ 0) eqn:E; simpl in Hw.
    - by apply elem_of_nil in Hw.
    - apply list_elem_of_singleton in Hw. eauto. }
  split; [apply Hinv |]. intros (f & Hf & Hc & ->).
  pose proof (lpSum_key
    ((λ f, pulp.mul (from_option col 0%Q (last_row df f)) (food_var f)) <$> foods)
    (pulp.mul (from_option col 0%Q (last_row df f)) (food_var f))
    (food_var f)) as H.
  apply list_elem_of_fmap in H as (w & E & Hw).
  - destruct (Hinv w Hw) as (f' & _ & _ & ->). simpl in E. by subst f'.
  - apply list_elem_of_fmap. by exists f.
  - unfold pulp.mul, pulp.expr_vars. rewrite Hc. simpl. left.
Qed.

Lemma weighted_sum_constant (col : Row → Q) e :
  weighted_sum (dict_zip foods (column col df)) food_vars foods = Some e →
  pulp.constant e = 0%Q.
Proof.
  rewrite weighted_sum_products. intros E. apply (inj Some) in E as <-. apply lpSum_constant.
  intros e He. apply list_elem_of_fmap in He as (f & -> & Hf).
  unfold pulp.mul. by destruct (Qeq_bool _ 0).
Qed.

(** Its coefficients are not positive when the column has no positive
    entry. *)
Lemma weighted_sum_nonpos (col : Row → Q) e :
  (∀ r, r ∈ df → (col r <= 0)%Q) →
  weighted_sum (dict_zip foods (column col df)) food_vars foods = Some e →
  Forall (λ vc, (vc.2 <= 0)%Q) (pulp.terms e).
Proof.
  intros Hcol. rewrite weighted_sum_products. intros E. apply (inj Some) in E as <-.
  apply lpSum_nonpos, Forall_fmap, Forall_forall. intros f Hf.
  unfold compose, pulp.mul.
  destruct (Qeq_bool _ 0); cbn [pulp.terms]; [constructor |].
  constructor; [| constructor]. cbn [snd].
  destruct (last_row df f) as [r|] eqn:E; cbn [from_option]; [| lra].
  apply last_row_Some in E as [Hr _]. by apply Hcol.
Qed.

Lemma products_terms (c : string → Q) (l : list Row) :
  ((λ f, pulp.mul (c f) (food_var f)) <$> (Foods <$> l)) ≫= pulp.terms
  = omap (λ r, if Qeq_bool (c (Foods r)) 0 then None
               else Some (food_var (Foods r), c (Foods r))) l.
Proof.
  induction l as [|r l IH]; [done |].
  cbn [fmap list_fmap omap list_omap]. rewrite bind_cons, IH.
  unfold pulp.mul. by destruct (Qeq_bool _ 0).
Qed.

Lemma products_terms_NoDup (g : Row → option Q) (l : list Row) :
  NoDup (Foods <$> l) →
  NoDup (pulp.key <$> (omap (λ r, c ← g r; Some (food_var (Foods r), c)) l).*1).
Proof.
  induction l as [|r l IH]; intros Hnd; [constructor |].
  cbn [fmap list_fmap] in Hnd. apply NoDup_cons in Hnd as [Hnotin Hnd].
  cbn [omap list_omap]. destruct (g r) as [c|]; simpl; [| by apply IH].
  apply NoDup_cons. split; [| by apply IH].
  intros Hin. apply Hnotin.
  apply list_elem_of_fmap in Hin as (w & -> & Hw).
  apply list_elem_of_fmap in Hw as ((w' & c') & -> & Hw).
  apply list_elem_of_omap in Hw as (r' & Hr' & Hg).
  destruct (g r'); [| discriminate]. injection Hg as <- _. simpl.
  by apply list_elem_of_fmap_2.
Qed.

(** With distinct food names the sum holds, row after row, the variable
    of each food whose entry is not 0, with that entry. *)
Lemma weighted_sum_terms (col : Row → Q) e :
  NoDup foods →
  weighted_sum (dict_zip foods (column col df)) food_vars foods = Some e →
  pulp.terms e
  = omap (λ r, if Qeq_bool (col r) 0 then None
               else Some (food_var (Foods r), col r)) df.
Proof.
  intros Hnd. rewrite weighted_sum_products. intros E. apply (inj Some) in E as <-.
  assert (((λ f, pulp.mul (from_option col 0%Q (last_row df f)) (food_var f))
           <$> foods) ≫= pulp.terms
          = omap (λ r, if Qeq_bool (col r) 0 then None
                       else Some (food_var (Foods r), col r)) df) as E.
  { unfold column.
    rewrite (products_terms (λ f, from_option col 0%Q (last_row df f)) df).
    apply omap_ext_in. intros r Hr. by rewrite last_row_NoDup. }
  rewrite lpSum_fresh; rewrite E; [done |].
  rewrite (omap_ext_in _
             (λ r, c ← (if Qeq_bool (col r) 0 then None else Some (col r));
                   Some (food_var (Foods r), c))).
  - by apply products_terms_NoDup.
  - intros r _. by destruct (Qeq_bool _ 0).
Qed.

Lemma eval_rows (col : Row → Q) (x : string → Q) (l : list Row) :
  (foldr (λ vc a, x (pulp.key vc.1) * vc.2 + a) 0
         (omap (λ r, if Qeq_bool (col r) 0 then None
                     else Some (food_var (Foods r), col r)) l)
   == total (λ r, x (Foods r) * col r) l)%Q.
Proof.
  unfold total. induction l as [|r l IH]; [reflexivity |].
  cbn [omap list_omap foldr]. destruct (Qeq_bool (col r) 0) eqn:E.
  - apply Qeq_bool_iff in E. rewrite IH, E. ring.
  - cbn [foldr fst snd]. rewrite IH. simpl. reflexivity.
Qed.

(** So it evaluates to the total over the rows. *)
Lemma weighted_sum_eval_NoDup (col : Row → Q) e (x : string → Q) :
  NoDup foods →
  weighted_sum (dict_zip foods (column col df)) food_vars foods = Some e →
  (pulp.eval x e == total (λ r, x (Foods r) * col r) df)%Q.
Proof.
  intros Hnd He. unfold pulp.eval.
  rewrite (weighted_sum_terms col e Hnd He), (weighted_sum_constant col e He).
  apply eval_rows.
Qed.

(** Building never fails, and gives one objective and six rows. *)
Lemma build_Some :
  ∃ cost cal fat carbs,
    weighted_sum (dict_zip foods (column Price_Serving df)) food_vars foods = Some cost
    ∧ weighted_sum (dict_zip foods (column Calories df)) food_vars foods = Some cal
    ∧ weighted_sum (dict_zip foods (column Total_Fat df)) food_vars foods = Some fat
    ∧ weighted_sum (dict_zip foods (column Carbohydrates df)) food_vars foods = Some carbs
    ∧ build var_name sheet
      = Some {| pulp.pname := "Simple Diet Problem";
                pulp.psense := pulp.LpMinimize;
                pulp.objective := Some cost;
                pulp.constraints :=
                  [ pulp.ge cal 800; pulp.le cal 1300;
                    pulp.named (pulp.ge fat 20) "FatMinimum";
                    pulp.named (pulp.le fat 50) "FatMaximum";
                    pulp.named (pulp.ge carbs 130) "CarbsMinimum";
                    pulp.named (pulp.le carbs 200) "CarbsMaximum" ] |}.
Proof.
  eexists _, _, _, _.
  split; [apply weighted_sum_products |]. split; [apply weighted_sum_products |].
  split; [apply weighted_sum_products |]. split; [apply weighted_sum_products |].
  unfold build. rewrite !weighted_sum_products. reflexivity.
Qed.

(** [prob.variables()] of the built problem: the variables of the foods
    whose price and nutrients are not all 0. *)
Lemma build_variables prob v :
  build var_name sheet = Some prob →
  v ∈ pulp.variables prob
  ↔ ∃ f, f ∈ foods ∧ in_problem df f = true ∧ v = food_var f.
Proof.
  destruct build_Some as (cost & cal & fat & carbs & Hcost & Hcal & Hfat & Hcarbs & ->).
  intros [= <-].
  assert (∀ w, w ∈ pulp.variables
            {| pulp.pname := "Simple Diet Problem";
               pulp.psense := pulp.LpMinimize;
               pulp.objective := Some cost;
               pulp.constraints :=
                 [ pulp.ge cal 800; pulp.le cal 1300;
                   pulp.named (pulp.ge fat 20) "FatMinimum";
                   pulp.named (pulp.le fat 50) "FatMaximum";
                   pulp.named (pulp.ge carbs 130) "CarbsMinimum";
                   pulp.named (pulp.le carbs 200) "CarbsMaximum" ] |} →
          ∃ f, f ∈ foods ∧ in_problem df f = true ∧ w = food_var f) as Hinv.
  { intros w Hw.
    enough (∃ f, f ∈ foods
                 ∧ (Qeq_bool (from_option Price_Serving 0%Q (last_row df f)) 0 = false
                    ∨ Qeq_bool (from_option Calories 0%Q (last_row df f)) 0 = false
                    ∨ Qeq_bool (from_option Total_Fat 0%Q (last_row df f)) 0 = false
                    ∨ Qeq_bool (from_option Carbohydrates 0%Q (last_row df f)) 0 = false)
                 ∧ w = food_var f) as (f & Hf & Hc & ->)
      by (exists f; by rewrite in_problem_spec).
    apply variables_inv in Hw as [(e & [= <-] & Hw)|(c & Hc & Hw)].
    - apply (weighted_sum_vars _ _ _ Hcost) in Hw as (f & ? & ? & ?). eauto 7.
    - simpl in Hc. repeat (apply elem_of_cons in Hc as [-> | Hc]); simpl in Hw;
        [apply (weighted_sum_vars _ _ _ Hcal) in Hw as (f & ? & ? & ?)
        |apply (weighted_sum_vars _ _ _ Hcal) in Hw as (f & ? & ? & ?)
        |apply (weighted_sum_vars _ _ _ Hfat) in Hw as (f & ? & ? & ?)
        |apply (weighted_sum_vars _ _ _ Hfat) in Hw as (f & ? & ? & ?)
        |apply (weighted_sum_vars _ _ _ Hcarbs) in Hw as (f & ? & ? & ?)
        |apply (weighted_sum_vars _ _ _ Hcarbs) in Hw as (f & ? & ? & ?)
        |by apply elem_of_nil in Hc]; eauto 9. }
  split; [apply Hinv |]. intros (f & Hf & Hin & ->).
  match goal with
  | |- _ ∈ pulp.variables ?p =>
      assert (pulp.key (food_var f) ∈ pulp.key <$> pulp.variables p) as H
  end.
  { apply in_problem_spec in Hin as [Hc | [Hc | [Hc | Hc]]].
    - apply (variables_objective _ cost); [done |].
      apply (weighted_sum_vars _ _ _ Hcost). eauto.
    - apply (variables_constraint _ (pulp.ge cal 800)); [left |].
      apply (weighted_sum_vars _ _ _ Hcal). eauto.
    - apply (variables_constraint _ (pulp.named (pulp.ge fat 20) "FatMinimum"));
        [do 2 right; left |].
      apply (weighted_sum_vars _ _ _ Hfat). eauto.
    - apply (variables_constraint _ (pulp.named (pulp.ge carbs 130) "CarbsMinimum"));
        [do 4 right; left |].
      apply (weighted_sum_vars _ _ _ Hcarbs). eauto. }
  apply list_elem_of_fmap in H as (w & E & Hw).
  destruct (Hinv w Hw) as (f' & _ & _ & ->). simpl in E. by subst f'.
Qed.

End built_problem.

(** ** The report *)


Lemma print_servings_prefix (s : gmap string Q) vs out :
  ∃ rest, print_servings s vs out = Finished (out ++ rest)
          ∨ print_servings s vs out = TypeError (out ++ rest).
Proof.
  revert out. induction vs as [|v vs IH]; intros out; simpl.
  - exists []. left. by rewrite app_nil_r.
  - destruct (s !! pulp.key v) as [q|].
    + destruct (gt0 q).
      * destruct (IH (out ++ [ServingLine (pulp.name v) q])) as [rest H].
        exists (ServingLine (pulp.name v) q :: rest).
        by rewrite <- !app_assoc in H.
      * apply IH.
    + exists []. right. by rewrite app_nil_r.
Qed.





(** ** The claims *)

(** C9, as the code has it.  Every decision variable the program creates
    has lower bound 0, no upper bound and category Integer; the variables
    of the built problem are those of the foods whose price and nutrients
    are not all 0 (the product of a variable by 0 is the empty expression,
    so a food with 0 everywhere is in no row); the constraints are the six
    nutrient rows and nothing else; so every feasible assignment gives each
    food that is in the problem a nonnegative integer number of
    servings. *)
Theorem food_variables_nonnegative_integer
    (var_name : string → string → string) (sheet : list Row) :
  let df := read_excel sheet 17 in
  let foods := column Foods df in
  let food_vars := food_vars_of var_name foods in
  (∀ f, f ∈ foods → is_Some (food_vars !! f))
  ∧ (∀ f v, food_vars !! f = Some v →
       pulp.lowBound v = Some 0%Q ∧ pulp.upBound v = None
       ∧ pulp.cat v = pulp.LpInteger)
  ∧ ∃ prob cal fat carbs,
      build var_name sheet = Some prob
      ∧ (∀ v, v ∈ pulp.variables prob
              ↔ ∃ f, food_vars !! f = Some v ∧ in_problem df f = true)
      ∧ weighted_sum (dict_zip foods (column Calories df)) food_vars foods = Some cal
      ∧ weighted_sum (dict_zip foods (column Total_Fat df)) food_vars foods = Some fat
      ∧ weighted_sum (dict_zip foods (column Carbohydrates df)) food_vars foods = Some carbs
      ∧ pulp.constraints prob
        = [ pulp.ge cal 800; pulp.le cal 1300;
            pulp.named (pulp.ge fat 20) "FatMinimum";
            pulp.named (pulp.le fat 50) "FatMaximum";
            pulp.named (pulp.ge carbs 130) "CarbsMinimum";
            pulp.named (pulp.le carbs 200) "CarbsMaximum" ]
      ∧ ∀ x, pulp.feasible prob x = true →
          ∀ f, f ∈ foods → in_problem df f = true →
               ∃ n : Z, (0 ≤ n)%Z ∧ (x f == inject_Z n)%Q.
Proof.
  intros df foods food_vars. split; [| split].
  - intros f Hf. exists (LpVariable_new var_name "Food" (Some 0%Q) None pulp.LpInteger f).
    by apply food_vars_lookup.
  - intros f v Hv. apply food_vars_lookup in Hv as [_ ->]. done.
  - destruct (build_Some var_name sheet)
      as (cost & cal & fat & carbs & Hcost & Hcal & Hfat & Hcarbs & Hbuild).
    eexists _, cal, fat, carbs. split; [exact Hbuild |].
    split; [| repeat split; try done].
    + intros v. rewrite (build_variables var_name sheet _ v Hbuild).
      split.
      * intros (f & Hf & Hin & ->). exists f. split; [| done].
        by apply food_vars_lookup.
      * intros (f & Hv & Hin). exists f.
        apply food_vars_lookup in Hv as [Hf ->]. done.
    + intros x Hx f Hf Hin.
      apply andb_true_iff in Hx as [Hvars _].
      rewrite forallb_forall in Hvars.
      specialize (Hvars (LpVariable_new var_name "Food" (Some 0%Q) None pulp.LpInteger f)).
      rewrite <- list_elem_of_In in Hvars.
      rewrite (build_variables var_name sheet _ _ Hbuild) in Hvars.
      destruct (andb_prop _ _ (Hvars (ex_intro _ f (conj Hf (conj Hin eq_refl)))))
        as [Hb Hd].
      simpl in Hd. apply andb_true_iff in Hb as [Hb _].
      change (Qle_bool 0 (x f) = true) in Hb.
      apply Qle_bool_iff in Hb. apply is_integer_spec in Hd as [n Hn].
      exists n. split; [| done].
      rewrite Hn in Hb. rewrite Zle_Qle. exact Hb.
Qed.


(** ** The script on the small sheets *)

Example example_run :
  main example_name example_status example_solve example_sheet
  = Some (Finished [ StatusLine "Optimal";
                     ServingLine "Food_A" 1; ServingLine "Food_B" 3;
                     CostLine 11.00 ]).
Proof. vm_compute. reflexivity. Qed.

Example example_build : build example_name example_sheet = Some example_prob.
Proof. vm_compute. reflexivity. Qed.

(** One serving of A and three of B is a feasible diet of the small
    sheet, so the feasible assignments C9 speaks of exist. *)
Example example_feasible : pulp.feasible example_prob example_servings = true.
Proof. vm_compute. reflexivity. Qed.

(** The floats of the script: 0.1 is not a binary fraction, the sum of
    0.1 and 0.2 is 0.30000000000000004, small integers are floats and
    2^53 + 1 is not, and five times 0.025 is 0.125, which rounds to
    0.12. *)
Example example_tenth :
  binary64 (1 # 10) = (3602879701896397 # 36028797018963968)%Q.
Proof. vm_compute. reflexivity. Qed.

Example example_three_tenths :
  fadd (binary64 (1 # 10)) (binary64 (2 # 10))
  = (1351079888211149 # 4503599627370496)%Q.
Proof. vm_compute. reflexivity. Qed.

Example example_integers :
  binary64 3 = 3%Q ∧ binary64 (-7) = (-7)%Q
  ∧ binary64 9007199254740993 = 9007199254740992%Q.
Proof. vm_compute. done. Qed.

Example example_eighth :
  fmul 5 (binary64 (25 # 1000)) = (1 # 8)%Q
  ∧ round2 (fmul 5 (binary64 (25 # 1000))) = 0.12%Q.
Proof. vm_compute. done. Qed.

(** C9 as it was claimed does not hold.  A food whose price and nutrients
    are all 0 has a variable in [food_vars], but the problem built from the
    sheet does not hold it, and an assignment that gives it half a serving
    less than none is feasible. *)
Lemma food_with_zero_row_is_not_constrained :
  build example_name example_tap_sheet = Some example_tap_prob
  ∧ is_Some (food_vars_of example_name
               (column Foods (read_excel example_tap_sheet 17)) !! "Tap")
  ∧ pulp.name <$> pulp.variables example_tap_prob
    = ["Food_A"; "Food_B"; "Food_C"]
  ∧ pulp.feasible example_tap_prob example_tap_servings = true
  ∧ (example_tap_servings "Tap" < 0)%Q.
Proof. vm_compute. repeat split; eauto. Qed.



(** * Further properties of the script *)

(** ** The dictionaries of the sheet *)

(** X1. Looking a food up in [dict(zip(foods, df[col]))] gives the column's
    value on the last row that carries that food name, and misses exactly
    when no row does. *)
Theorem dict_zip_lookup_last_row {A} (col : Row → A) (df : DataFrame)
    (f : string) :
  dict_zip (column Foods df) (column col df) !! f = col <$> last_row df f.
Proof.
  unfold dict_zip. rewrite zip_columns, foldl_insert_rows.
  by destruct (last_row df f).
Qed.

(** ** Totals over the sheet *)

Lemma total_ext (w1 w2 : Row → Q) (l : list Row) :
  (∀ r, r ∈ l → (w1 r == w2 r)%Q) → (total w1 l == total w2 l)%Q.
Proof.
  unfold total. induction l as [|r l IH]; intros H; simpl; [reflexivity |].
  rewrite (H r) by left. rewrite IH; [reflexivity |].
  intros r' Hr'. apply H. by right.
Qed.

Lemma total_ge_term (w : Row → Q) (l : list Row) r :
  (∀ r', r' ∈ l → (0 <= w r')%Q) → r ∈ l → (w r <= total w l)%Q.
Proof.
  unfold total. induction l as [|r' l IH]; intros Hw Hr.
  - by apply elem_of_nil in Hr.
  - simpl.
    assert (0 <= w r')%Q by (apply Hw; left).
    assert (0 <= foldr (λ r a, w r + a) 0 l)%Q as Hrest.
    { clear -Hw. induction l as [|r'' l IH]; simpl; [lra |].
      assert (0 <= w r'')%Q by (apply Hw; right; left).
      assert (0 <= foldr (λ r a, w r + a) 0 l)%Q; [| lra].
      apply IH. intros r0 Hr0. apply Hw.
      apply elem_of_cons in Hr0 as [-> | Hr0]; [left | right; by right]. }
    apply elem_of_cons in Hr as [-> | Hr]; [lra |].
    assert (w r <= foldr (λ r a, w r + a) 0 l)%Q; [| lra].
    apply IH; [| done]. intros r0 Hr0. apply Hw. by right.
Qed.

Lemma zero_row_spec (r : Row) :
  nonzero_row r = false →
  (Price_Serving r == 0)%Q ∧ (Calories r == 0)%Q
  ∧ (Total_Fat r == 0)%Q ∧ (Carbohydrates r == 0)%Q.
Proof.
  unfold nonzero_row. rewrite negb_false_iff, !andb_true_iff, !Qeq_bool_iff.
  tauto.
Qed.

(** An expression without a constant, with no positive coefficient, is
    not positive where its variables are not negative. *)
Lemma eval_nonpos (x : string → Q) e :
  pulp.constant e = 0%Q →
  Forall (λ vc, (vc.2 <= 0)%Q) (pulp.terms e) →
  (∀ v, v ∈ pulp.expr_vars e → (0 <= x (pulp.key v))%Q) →
  (pulp.eval x e <= 0)%Q.
Proof.
  unfold pulp.eval, pulp.expr_vars. intros -> Hts.
  induction Hts as [|[v c] ts Hc Hts IH]; intros Hx; simpl; [lra |].
  assert (0 <= x (pulp.key v))%Q as Hv by (apply Hx; left).
  assert (foldr (λ vc a, x (pulp.key vc.1) * vc.2 + a) 0 ts <= 0)%Q as Hrest.
  { apply IH. intros w Hw. apply Hx. by right. }
  simpl in Hc. nra.
Qed.

(** ** What the built problem asks for *)

(** X2. The problem minimises the total cost: when the food names of the
    sheet are distinct, its objective evaluates to the sum over the rows of
    the servings of the row's food times its price per serving. *)
Theorem objective_is_total_cost
    (var_name : string → string → string) (sheet : list Row)
    (prob : pulp.LpProblem) (x : string → Q) :
  build var_name sheet = Some prob →
  NoDup (column Foods (read_excel sheet 17)) →
  pulp.psense prob = pulp.LpMinimize
  ∧ ∃ e, pulp.objective prob = Some e
         ∧ (pulp.eval x e
            == total (λ r, x (Foods r) * Price_Serving r) (read_excel sheet 17))%Q.
Proof.
  intros Hbuild Hnd.
  destruct (build_Some var_name sheet)
    as (cost & cal & fat & carbs & Hcost & _ & _ & _ & Hbuild').
  rewrite Hbuild in Hbuild'. injection Hbuild' as ->. simpl.
  split; [done |]. exists cost. split; [done |].
  by apply (weighted_sum_eval_NoDup var_name sheet Price_Serving).
Qed.

Lemma feasible_variables (var_name : string → string → string)
    (sheet : list Row) prob (x : string → Q) :
  build var_name sheet = Some prob →
  forallb (λ v, pulp.in_bounds v (x (pulp.key v))
                && pulp.in_domain (pulp.cat v) (x (pulp.key v)))
          (pulp.variables prob) = true
  ↔ ∀ f, f ∈ column Foods (read_excel sheet 17) →
         in_problem (read_excel sheet 17) f = true →
         (0 <= x f)%Q ∧ ∃ n : Z, (x f == inject_Z n)%Q.
Proof.
  intros Hbuild. rewrite forallb_forall. split.
  - intros H f Hf Hin.
    specialize (H (LpVariable_new var_name "Food" (Some 0%Q) None pulp.LpInteger f)).
    rewrite <- list_elem_of_In in H.
    rewrite (build_variables var_name sheet _ _ Hbuild) in H.
    destruct (andb_prop _ _ (H (ex_intro _ f (conj Hf (conj Hin eq_refl)))))
      as [Hb Hd].
    apply andb_true_iff in Hb as [Hb _].
    change (Qle_bool 0 (x f) = true) in Hb.
    apply Qle_bool_iff in Hb. simpl in Hd. by apply is_integer_spec in Hd.
  - intros H v Hv. apply list_elem_of_In in Hv.
    apply (build_variables var_name sheet _ _ Hbuild) in Hv as (f & Hf & Hin & ->).
    destruct (H f Hf Hin) as [Hb Hd]. apply andb_true_iff. split.
    + apply andb_true_iff. split; [| done].
      change (Qle_bool 0 (x f) = true). by apply Qle_bool_iff.
    + simpl. by apply is_integer_spec.
Qed.

Lemma feasible_spec (var_name : string → string → string)
    (sheet : list Row) (prob : pulp.LpProblem) (x : string → Q) :
  build var_name sheet = Some prob →
  NoDup (column Foods (read_excel sheet 17)) →
  pulp.feasible prob x = true
  ↔ (∀ r, r ∈ read_excel sheet 17 → nonzero_row r = true →
       (0 <= x (Foods r))%Q ∧ ∃ n : Z, (x (Foods r) == inject_Z n)%Q)
    ∧ (800 <= total (λ r, x (Foods r) * Calories r) (read_excel sheet 17))%Q
    ∧ (total (λ r, x (Foods r) * Calories r) (read_excel sheet 17) <= 1300)%Q
    ∧ (20 <= total (λ r, x (Foods r) * Total_Fat r) (read_excel sheet 17))%Q
    ∧ (total (λ r, x (Foods r) * Total_Fat r) (read_excel sheet 17) <= 50)%Q
    ∧ (130 <= total (λ r, x (Foods r) * Carbohydrates r) (read_excel sheet 17))%Q
    ∧ (total (λ r, x (Foods r) * Carbohydrates r) (read_excel sheet 17) <= 200)%Q.
Proof.
  intros Hbuild Hnd.
  unfold pulp.feasible. rewrite andb_true_iff.
  rewrite (feasible_variables var_name sheet prob x Hbuild).
  assert ((∀ f, f ∈ column Foods (read_excel sheet 17) →
                in_problem (read_excel sheet 17) f = true →
                (0 <= x f)%Q ∧ ∃ n : Z, (x f == inject_Z n)%Q)
          ↔ (∀ r, r ∈ read_excel sheet 17 → nonzero_row r = true →
                (0 <= x (Foods r))%Q ∧ ∃ n : Z, (x (Foods r) == inject_Z n)%Q))
    as ->.
  { split.
    - intros H r Hr Hnz. apply H; [by apply list_elem_of_fmap_2 |].
      unfold in_problem. by rewrite last_row_NoDup.
    - intros H f Hf Hin. apply list_elem_of_fmap in Hf as (r & -> & Hr).
      apply H; [done |]. unfold in_problem in Hin.
      by rewrite last_row_NoDup in Hin. }
  destruct (build_Some var_name sheet)
    as (cost & cal & fat & carbs & _ & Hcal & Hfat & Hcarbs & Hbuild').
  rewrite Hbuild in Hbuild'. injection Hbuild' as ->.
  cbn [pulp.constraints forallb pulp.holds pulp.sense pulp.lhs pulp.rhs
       pulp.ge pulp.le pulp.named].
  rewrite !andb_true_iff, !Qle_bool_iff.
  rewrite !(weighted_sum_eval_NoDup var_name sheet Calories cal x Hnd Hcal).
  rewrite !(weighted_sum_eval_NoDup var_name sheet Total_Fat fat x Hnd Hfat).
  rewrite !(weighted_sum_eval_NoDup var_name sheet Carbohydrates carbs x Hnd Hcarbs).
  tauto.
Qed.

(** X4. When the food names are distinct, an assignment is feasible for the
    built problem exactly when every food whose row is not all 0 gets a
    nonnegative integer number of servings, the calories total between 800
    and 1300, the fat between 20 and 50 and the carbohydrates between 130
    and 200.  A food whose row is all 0 is not in the problem, and nothing
    is asked of its servings. *)
Theorem feasible_iff_nutrients_in_range
    (var_name : string → string → string) (sheet : list Row)
    (prob : pulp.LpProblem) (x : string → Q) :
  build var_name sheet = Some prob →
  NoDup (column Foods (read_excel sheet 17)) →
  let df := read_excel sheet 17 in
  pulp.feasible prob x = true
  ↔ (∀ r, r ∈ df → nonzero_row r = true →
       (0 <= x (Foods r))%Q ∧ ∃ n : Z, (x (Foods r) == inject_Z n)%Q)
    ∧ (800 <= total (λ r, x (Foods r) * Calories r) df)%Q
    ∧ (total (λ r, x (Foods r) * Calories r) df <= 1300)%Q
    ∧ (20 <= total (λ r, x (Foods r) * Total_Fat r) df)%Q
    ∧ (total (λ r, x (Foods r) * Total_Fat r) df <= 50)%Q
    ∧ (130 <= total (λ r, x (Foods r) * Carbohydrates r) df)%Q
    ∧ (total (λ r, x (Foods r) * Carbohydrates r) df <= 200)%Q.
Proof. intros Hbuild Hnd df. exact (feasible_spec var_name sheet prob x Hbuild Hnd). Qed.

(** X5. A sheet on which no food has calories (an empty sheet among them)
    builds a problem no assignment is feasible for: the calorie minimum
    cannot be met. *)
Theorem no_calories_no_feasible_diet
    (var_name : string → string → string) (sheet : list Row)
    (prob : pulp.LpProblem) :
  build var_name sheet = Some prob →
  (∀ r, r ∈ read_excel sheet 17 → (Calories r <= 0)%Q) →
  ∀ x, pulp.feasible prob x = false.
Proof.
  intros Hbuild Hcal0 x. apply not_true_is_false. intros Hfeas.
  unfold pulp.feasible in Hfeas. apply andb_true_iff in Hfeas as [Hvars Hrows].
  pose proof (proj1 (feasible_variables var_name sheet prob x Hbuild) Hvars)
    as Hnonneg. clear Hvars.
  destruct (build_Some var_name sheet)
    as (cost & cal & fat & carbs & _ & Hcal & _ & _ & Hbuild').
  rewrite Hbuild in Hbuild'. injection Hbuild' as ->.
  cbn [pulp.constraints forallb] in Hrows.
  apply andb_true_iff in Hrows as [Hmin _].
  cbn [pulp.holds pulp.sense pulp.lhs pulp.rhs pulp.ge] in Hmin.
  apply Qle_bool_iff in Hmin.
  assert (pulp.eval x cal <= 0)%Q as Hle; [| lra].
  apply eval_nonpos.
  - exact (weighted_sum_constant var_name sheet Calories cal Hcal).
  - exact (weighted_sum_nonpos var_name sheet Calories cal Hcal0 Hcal).
  - intros v Hv.
    apply (weighted_sum_vars var_name sheet Calories cal v Hcal) in Hv
      as (f & Hf & Hc & ->).
    apply Hnonneg; [done |]. apply in_problem_spec. auto.
Qed.

(** ** A food name on several rows *)

(** The coefficient of a food's variable in a sum of products over rows:
    one addition of the food's entry for each row of its name. *)
Lemma coefficient_products (var_name : string → string → string)
    (c : string → Q) (l : list Row) e0 f :
  coefficient
    (pulp.terms
       (foldl pulp.addInPlace e0
          ((λ f, pulp.mul (c f)
                   (LpVariable_new var_name "Food" (Some 0%Q) None
                      pulp.LpInteger f)) <$> (Foods <$> l))))
    (LpVariable_new var_name "Food" (Some 0%Q) None pulp.LpInteger f)
  = if Qeq_bool (c f) 0
    then coefficient (pulp.terms e0)
           (LpVariable_new var_name "Food" (Some 0%Q) None pulp.LpInteger f)
    else Nat.iter (length (filter (λ r, Foods r = f) l))
           (λ y, Some (added y (c f)))
           (coefficient (pulp.terms e0)
              (LpVariable_new var_name "Food" (Some 0%Q) None pulp.LpInteger f)).
Proof.
  revert e0. induction l as [|r l IH]; intros e0.
  - cbn [fmap list_fmap foldl filter list_filter length Nat.iter nat_rect].
    by destruct (Qeq_bool _ 0).
  - cbn [fmap list_fmap foldl]. rewrite IH. rewrite filter_cons.
    assert (coefficient
              (pulp.terms
                 (pulp.addInPlace e0
                    (pulp.mul (c (Foods r))
                       (LpVariable_new var_name "Food" (Some 0%Q) None
                          pulp.LpInteger (Foods r)))))
              (LpVariable_new var_name "Food" (Some 0%Q) None pulp.LpInteger f)
            = if Qeq_bool (c (Foods r)) 0 || negb (String.eqb (Foods r) f)
              then coefficient (pulp.terms e0)
                     (LpVariable_new var_name "Food" (Some 0%Q) None
                        pulp.LpInteger f)
              else Some (added (coefficient (pulp.terms e0)
                                  (LpVariable_new var_name "Food" (Some 0%Q)
                                     None pulp.LpInteger f))
                               (c (Foods r)))) as ->.
    { unfold pulp.mul.
      destruct (Qeq_bool (c (Foods r)) 0);
        cbn [pulp.addInPlace pulp.terms foldl fst snd orb]; [done |].
      rewrite coefficient_addterm. cbn [pulp.key LpVariable_new].
      by destruct (String.eqb (Foods r) f). }
    destruct (decide (Foods r = f)) as [<- | Hne].
    + rewrite String.eqb_refl. cbn [negb length].
      destruct (Qeq_bool (c (Foods r)) 0); cbn [orb]; [done |].
      by rewrite Nat.iter_succ_r.
    + apply String.eqb_neq in Hne. rewrite Hne. cbn [negb].
      by rewrite orb_true_r.
Qed.

(** X3. A food name that stands on several rows has one variable, once in
    the objective and once among the variables of the problem.  Its
    coefficient in the objective is made of the price on the last row of
    the name alone: that price, added in floats once for each row of the
    name (the earlier prices do not count), and no coefficient at all
    when that price is 0. *)
Theorem objective_counts_repeated_names_at_last_price
    (var_name : string → string → string) (sheet : list Row) :
  let df := read_excel sheet 17 in
  ∃ prob e,
    build var_name sheet = Some prob
    ∧ pulp.objective prob = Some e
    ∧ NoDup (pulp.key <$> pulp.variables prob)
    ∧ NoDup (pulp.key <$> pulp.expr_vars e)
    ∧ ∀ f,
        coefficient (pulp.terms e)
          (LpVariable_new var_name "Food" (Some 0%Q) None pulp.LpInteger f)
        = match last_row df f with
          | Some r =>
              if Qeq_bool (Price_Serving r) 0 then None
              else repeated (Price_Serving r)
                     (length (filter (λ r', Foods r' = f) df))
          | None => None
          end.
Proof.
  intros df.
  destruct (build_Some var_name sheet)
    as (cost & cal & fat & carbs & Hcost & _ & _ & _ & Hbuild).
  eexists _, cost. split; [exact Hbuild |]. split; [done |].
  rewrite weighted_sum_products in Hcost. apply (inj Some) in Hcost as <-.
  split; [apply variables_NoDup |].
  split; [apply lpSum_NoDup |]. intros f.
  unfold pulp.lpSum, column.
  rewrite (coefficient_products var_name
             (λ f, from_option Price_Serving 0%Q (last_row df f)) df).
  fold df. cbn [pulp.terms coefficient].
  destruct (last_row df f) as [r|]; cbn [from_option]; [| done].
  by destruct (Qeq_bool _ 0).
Qed.

(** On three rows of one name priced 0.1 the coefficient is
    0.30000000000000004. *)
Example example_thrice :
  (prob ← build example_name example_thrice_sheet;
   e ← pulp.objective prob;
   coefficient (pulp.terms e)
     (LpVariable_new example_name "Food" (Some 0%Q) None pulp.LpInteger "T"))
  = Some (1351079888211149 # 4503599627370496)%Q.
Proof. vm_compute. reflexivity. Qed.

(** ** How many variables there are *)

(** X6. Only the first 17 rows of the sheet are read: the rows after them
    do not change the problem, which has at most 17 variables, none of them
    twice. *)
Theorem only_the_first_17_rows_count
    (var_name : string → string → string) (sheet : list Row) :
  build var_name sheet = build var_name (take 17 sheet)
  ∧ ∃ prob, build var_name sheet = Some prob
            ∧ NoDup (pulp.key <$> pulp.variables prob)
            ∧ length (pulp.variables prob) ≤ 17.
Proof.
  split.
  - unfold build, read_excel. by rewrite take_take.
  - destruct (build_Some var_name sheet)
      as (cost & cal & fat & carbs & _ & _ & _ & _ & Hbuild).
    eexists. split; [exact Hbuild |]. split; [apply variables_NoDup |].
    match goal with |- length (pulp.variables ?p) ≤ _ => set (prob := p) in * end.
    transitivity (length (column Foods (read_excel sheet 17))).
    + rewrite <- (length_fmap pulp.key (pulp.variables prob)).
      apply submseteq_length, NoDup_submseteq; [apply variables_NoDup |].
      intros k Hk. apply list_elem_of_fmap in Hk as (v & -> & Hv).
      apply (build_variables var_name sheet prob v Hbuild) in Hv
        as (f & Hf & _ & ->). done.
    + unfold column, read_excel. rewrite length_fmap, length_take. lia.
Qed.

(** ** What a run prints *)

(** X7. Building never meets a missing key, and whatever the solver
    answers the first line printed is the status, also when the run later
    stops at a [TypeError]. *)
Theorem status_is_printed_first
    (var_name : string → string → string) (LpStatus : Z → string)
    (solve : pulp.LpProblem → pulp.Solution) (sheet : list Row) :
  ∃ prob rest,
    build var_name sheet = Some prob
    ∧ (main var_name LpStatus solve sheet
       = Some (Finished (StatusLine (LpStatus (pulp.status (solve prob))) :: rest))
       ∨ main var_name LpStatus solve sheet
         = Some (TypeError (StatusLine (LpStatus (pulp.status (solve prob))) :: rest))).
Proof.
  destruct (build_Some var_name sheet)
    as (cost & cal & fat & carbs & _ & _ & _ & _ & Hbuild).
  match type of Hbuild with _ = Some ?p => set (prob := p) in * end.
  exists prob. unfold main. rewrite Hbuild. simpl. unfold report.
  destruct (print_servings_prefix (pulp.varValue (solve prob))
              (pulp.variables prob)
              [StatusLine (LpStatus (pulp.status (solve prob)))])
    as [rest [H|H]]; rewrite H; simpl.
  - destruct (pulp.value _ _).
    + eexists. split; [done |]. left. reflexivity.
    + eexists. split; [done |]. by right.
  - eexists. split; [done |]. by right.
Qed.


(** ** The cost line *)


(** X10. Rounding to two decimals leaves a number of hundredths as it is;
    so a cost that has at most two decimals is printed unchanged, and
    rounding twice is rounding once. *)
Theorem round2_keeps_hundredths (n : Z) (q : Q) :
  (round2 (inject_Z n / 100) == inject_Z n / 100)%Q
  ∧ (round2 (round2 q) == round2 q)%Q.
Proof.
  assert (∀ m : Z, round_half_even (inject_Z m) = m) as Hint.
  { intros m. unfold round_half_even. rewrite Qfloor_Z.
    assert ((inject_Z m - inject_Z m ?= 1 # 2)%Q = Lt) as ->; [| done].
    apply (proj1 (Qlt_alt _ _)). lra. }
  assert (∀ m : Z, (round2 (inject_Z m / 100) == inject_Z m / 100)%Q) as H.
  { intros m. unfold round2.
    rewrite (round_half_even_comp (inject_Z m / 100 * 100) (inject_Z m))
      by (field).
    by rewrite Hint. }
  split; [apply H |].
  unfold round2 at 2. apply H.
Qed.

(** ** What the nutrient rows do and do not bound *)

(** X11. The model itself puts no maximum on the servings of a food: with
    distinct food names, a food without calories, fat and carbohydrates
    can be set to any whole number of servings in a feasible assignment,
    and the assignment stays feasible. *)
Theorem servings_have_no_maximum_of_their_own
    (var_name : string → string → string) (sheet : list Row)
    (prob : pulp.LpProblem) (x : string → Q) (r0 : Row) (n : Z) :
  build var_name sheet = Some prob →
  NoDup (column Foods (read_excel sheet 17)) →
  r0 ∈ read_excel sheet 17 →
  (Calories r0 == 0)%Q → (Total_Fat r0 == 0)%Q → (Carbohydrates r0 == 0)%Q →
  pulp.feasible prob x = true →
  (0 ≤ n)%Z →
  pulp.feasible prob
    (λ k, if decide (k = Foods r0) then inject_Z n else x k) = true.
Proof.
  intros Hbuild Hnd Hr0 Hcal Hfat Hcarbs Hfeas Hn.
  apply (feasible_spec var_name sheet prob _ Hbuild Hnd).
  apply (feasible_spec var_name sheet prob _ Hbuild Hnd) in Hfeas
    as (Hsign & H1 & H2 & H3 & H4 & H5 & H6).
  assert (∀ col : Row → Q, (col r0 == 0)%Q →
            (total (λ r, (if decide (Foods r = Foods r0) then inject_Z n
                          else x (Foods r)) * col r) (read_excel sheet 17)
             == total (λ r, x (Foods r) * col r) (read_excel sheet 17))%Q) as Hsame.
  { intros col Hcol. apply total_ext. intros r Hr.
    destruct (decide (Foods r = Foods r0)) as [E|E]; [| reflexivity].
    assert (r = r0) as ->.
    { pose proof (last_row_NoDup _ r Hnd Hr) as Hl.
      rewrite E, (last_row_NoDup _ r0 Hnd Hr0) in Hl. by injection Hl. }
    rewrite Hcol. ring. }
  split.
  - intros r Hr Hnz.
    destruct (decide (Foods r = Foods r0)); [| by apply Hsign].
    split; [| by exists n]. rewrite Zle_Qle in Hn. exact Hn.
  - rewrite !(Hsame Calories Hcal), !(Hsame Total_Fat Hfat),
      !(Hsame Carbohydrates Hcarbs). tauto.
Qed.

(** X12. The calorie maximum still bounds every food that has calories:
    with distinct food names and no negative calories on the sheet, the
    servings of a food times its calories never exceed 1300 in a feasible
    assignment. *)
Theorem calories_bound_each_food
    (var_name : string → string → string) (sheet : list Row)
    (prob : pulp.LpProblem) (x : string → Q) (r0 : Row) :
  build var_name sheet = Some prob →
  NoDup (column Foods (read_excel sheet 17)) →
  (∀ r, r ∈ read_excel sheet 17 → (0 <= Calories r)%Q) →
  r0 ∈ read_excel sheet 17 →
  pulp.feasible prob x = true →
  (x (Foods r0) * Calories r0 <= 1300)%Q.
Proof.
  intros Hbuild Hnd Hcal Hr0 Hfeas.
  apply (feasible_spec var_name sheet prob _ Hbuild Hnd) in Hfeas
    as (Hsign & _ & Hmax & _).
  pose proof (total_ge_term (λ r, x (Foods r) * Calories r)%Q
                (read_excel sheet 17) r0) as H.
  cbn beta in H. eapply Qle_trans; [| exact Hmax]. apply H; [| done].
  intros r Hr. destruct (nonzero_row r) eqn:Hnz.
  - destruct (Hsign r Hr Hnz) as [Hx _]. pose proof (Hcal r Hr). nra.
  - apply zero_row_spec in Hnz as (_ & Hc & _). rewrite Hc. lra.
Qed.

(** ** The further properties on the small sheets *)

Lemma objective_is_total_cost_witness :
  pulp.psense example_prob = pulp.LpMinimize
  ∧ ∃ e, pulp.objective example_prob = Some e
         ∧ (pulp.eval example_servings e
            == total (λ r, example_servings (Foods r) * Price_Serving r)
                     (read_excel example_sheet 17))%Q.
Proof.
  apply (objective_is_total_cost example_name example_sheet example_prob
           example_servings).
  - vm_compute. reflexivity.
  - apply (bool_decide_unpack _). vm_compute. exact I.
Defined.

Lemma feasible_iff_nutrients_in_range_witness :
  (800 <= total (λ r, example_servings (Foods r) * Calories r)
                (read_excel example_sheet 17))%Q
  ∧ (total (λ r, example_servings (Foods r) * Carbohydrates r)
           (read_excel example_sheet 17) <= 200)%Q.
Proof.
  destruct (proj1 (feasible_iff_nutrients_in_range example_name example_sheet
                     example_prob example_servings
                     ltac:(vm_compute; reflexivity)
                     ltac:(apply (bool_decide_unpack _); vm_compute; exact I)))
    as (_ & H1 & _ & _ & _ & _ & H6).
  - vm_compute. reflexivity.
  - by split.
Defined.

Lemma no_calories_no_feasible_diet_witness :
  pulp.feasible example_dry_prob (λ _, 5%Q) = false.
Proof.
  apply (no_calories_no_feasible_diet example_name example_dry_sheet).
  - vm_compute. reflexivity.
  - intros r Hr. apply list_elem_of_In in Hr. vm_compute in Hr.
    destruct Hr as [<- | []]. vm_compute. discriminate.
Defined.


Lemma servings_have_no_maximum_of_their_own_witness :
  pulp.feasible example_water_prob
    (λ k, if decide (k = Foods example_water) then inject_Z 7
          else example_servings k) = true.
Proof.
  apply (servings_have_no_maximum_of_their_own example_name
           example_water_sheet example_water_prob example_servings
           example_water 7).
  - vm_compute. reflexivity.
  - apply (bool_decide_unpack _). vm_compute. exact I.
  - apply list_elem_of_In. vm_compute. tauto.
  - reflexivity.
  - reflexivity.
  - reflexivity.
  - vm_compute. reflexivity.
  - lia.
Defined.

Lemma calories_bound_each_food_witness :
  (example_servings "B" * 250 <= 1300)%Q.
Proof.
  apply (calories_bound_each_food example_name example_sheet example_prob
           example_servings
           {| Foods := "B"; Price_Serving := 3; Calories := 250;
              Total_Fat := 5; Carbohydrates := 40 |}).
  - vm_compute. reflexivity.
  - apply (bool_decide_unpack _). vm_compute. exact I.
  - intros r Hr. apply list_elem_of_In in Hr. vm_compute in Hr.
    destruct Hr as [<- | [<- | [<- | []]]]; vm_compute; discriminate.
  - apply list_elem_of_In. vm_compute. tauto.
  - vm_compute. reflexivity.
Defined.
